(** * Order book of the FX market-data feed (orderbook.py, run_data.py)

    Python floats are IEEE-754 binary64 values: they are modelled by Rocq's
    primitive floats, whose comparisons [<?] and [=?] follow IEEE semantics
    (NaN compares false with everything, -0.0 == 0.0), exactly as Python's
    [<], [>] and [==] on floats do. *)

From Stdlib Require Import Floats ZArith List String Bool Sorted Permutation Lia.
Import ListNotations.

Local Set Warnings "-inexact-float".

Open Scope float_scope.

(** ** Values read from a market-data row *)

(** A cell of a pandas row: a numeric value, a string, or a pandas
    [Timestamp] (nanoseconds since the epoch).  [VDatetime] is a Python
    [datetime] (microseconds since the epoch), produced by [to_pydatetime]. *)
Inductive pyvalue : Type :=
| VFloat (f : float)
| VStr (s : string)
| VTimestamp (ns : Z)
| VDatetime (us : Z).

(** ** The OrderedDict[float, float] of one side of the book *)

(** An OrderedDict as its list of items in iteration order.  Keys are found
    with Python's [==] on floats. *)
Definition odict := list (float * float).

Fixpoint od_find (d : odict) (k : float) : option float :=
  match d with
  | [] => None
  | (k', v) :: t => if k' =? k then Some v else od_find t k
  end.

(** [k in d] *)
Definition od_contains (d : odict) (k : float) : bool :=
  match od_find d k with Some _ => true | None => false end.

(** [d[k] = v]: an existing key keeps its place (and its key object) and gets
    the new value; a new key is appended at the end. *)
Fixpoint od_setitem (d : odict) (k v : float) : odict :=
  match d with
  | [] => [(k, v)]
  | (k', v') :: t => if k' =? k then (k', v) :: t else (k', v') :: od_setitem t k v
  end.

(** [del d[k]], for a key that is present. *)
Fixpoint od_delitem (d : odict) (k : float) : odict :=
  match d with
  | [] => []
  | (k', v') :: t => if k' =? k then t else (k', v') :: od_delitem t k
  end.

(** [OrderedDict(items)]: the items inserted one after the other. *)
Definition of_items (items : list (float * float)) : odict :=
  fold_left (fun d kv => od_setitem d (fst kv) (snd kv)) items [].

(** Python's [<] on [(price, qty)] tuples. *)
Definition item_lt (a b : float * float) : bool :=
  if fst a =? fst b then snd a <? snd b else fst a <? fst b.

(** [sorted(items)]: a stable sort by [item_lt] (insertion sort; on items
    with distinct prices every sort by [item_lt] gives the same list). *)
Fixpoint insert_asc (x : float * float) (l : list (float * float)) :=
  match l with
  | [] => [x]
  | h :: t => if item_lt h x then h :: insert_asc x t else x :: h :: t
  end.

Fixpoint sort_asc (l : list (float * float)) : list (float * float) :=
  match l with
  | [] => []
  | h :: t => insert_asc h (sort_asc t)
  end.

(** [sorted(items, reverse=True)]: stable, largest first. *)
Fixpoint insert_desc (x : float * float) (l : list (float * float)) :=
  match l with
  | [] => [x]
  | h :: t => if item_lt x h then h :: insert_desc x t else x :: h :: t
  end.

Fixpoint sort_desc (l : list (float * float)) : list (float * float) :=
  match l with
  | [] => []
  | h :: t => insert_desc h (sort_desc t)
  end.

(** ** OrderBook (orderbook.py) *)

Record OrderBook : Type := mkOrderBook {
  security : string;
  bids : odict;
  offers : odict;
  last_update_time : option pyvalue
}.

(** [OrderBook(security)] *)
Definition new_order_book (sec : string) : OrderBook :=
  mkOrderBook sec [] [] None.

(** [all(p == 0.0 for p in prices)] *)
Definition all_zero (prices : list float) : bool :=
  forallb (fun p => p =? 0) prices.

(** One iteration of the loop over [zip(prices, quantities)]. *)
Definition apply_level (d : odict) (pq : float * float) : odict :=
  let '(price, qty) := pq in
  if (0 <? price) && (0 <? qty) then od_setitem d price qty
  else if (0 <? price) && (qty =? 0) then
    (if od_contains d price then od_delitem d price else d)
  else d.

(** [zip] stops at the shorter list, as [combine] does. *)
Definition update_bids (ob : OrderBook) (prices quantities : list float) : OrderBook :=
  if all_zero prices then ob
  else
    let d := fold_left apply_level (combine prices quantities) (bids ob) in
    mkOrderBook (security ob) (of_items (sort_desc d)) (offers ob) (last_update_time ob).

Definition update_offers (ob : OrderBook) (prices quantities : list float) : OrderBook :=
  if all_zero prices then ob
  else
    let d := fold_left apply_level (combine prices quantities) (offers ob) in
    mkOrderBook (security ob) (bids ob) (of_items (sort_asc d)) (last_update_time ob).

(** [next(iter(d))] and the value stored under it. *)
Definition get_best_bid (ob : OrderBook) : option (float * float) :=
  match bids ob with
  | [] => None
  | (price, qty) :: _ => Some (price, qty)
  end.

Definition get_best_offer (ob : OrderBook) : option (float * float) :=
  match offers ob with
  | [] => None
  | (price, qty) :: _ => Some (price, qty)
  end.

Definition get_spread (ob : OrderBook) : option float :=
  match get_best_bid ob, get_best_offer ob with
  | Some (bid, _), Some (offer, _) => Some (offer - bid)
  | _, _ => None
  end.

Example scenario_levels :
  let ob1 := update_bids (new_order_book "EURUSD") [1.10; 1.09; 0; 0; 0] [5; 3; 0; 0; 0] in
  let ob2 := update_offers ob1 [1.11; 1.12; 0; 0; 0] [4; 6; 0; 0; 0] in
  let ob3 := update_bids ob2 [1.10; 0; 0; 0; 0] [0; 0; 0; 0; 0] in
  get_best_bid ob2 = Some (1.10, 5) /\ get_best_offer ob2 = Some (1.11, 4)
  /\ List.length (bids ob2) = 2%nat /\ List.length (offers ob2) = 2%nat
  /\ get_best_bid ob3 = Some (1.09, 3).
Proof. vm_compute. repeat split. Qed.

(** ** Feed applier (run_data.py) *)

Inductive py_error : Type :=
| KeyError (k : string)
| ValueError
| TypeError.

(** A pandas row as its (column, value) pairs. *)
Definition row := list (string * pyvalue).

(** [row[k]] *)
Fixpoint row_get (r : row) (k : string) : option pyvalue :=
  match r with
  | [] => None
  | (k', v) :: t => if String.eqb k' k then Some v else row_get t k
  end.

(** Code that may raise, as an error monad. *)
Definition bind_res {A B : Type} (x : py_error + A) (f : A -> py_error + B) : py_error + B :=
  match x with
  | inl e => inl e
  | inr a => f a
  end.

Notation "'let*' x := c 'in' f" := (bind_res c (fun x => f))
  (at level 200, x name, c at level 100, f at level 200).

Definition bid_price_fields : list string :=
  ["BI_price_1"; "BI_price_2"; "BI_price_3"; "BI_price_4"; "BI_price_5"]%string.
Definition bid_quantity_fields : list string :=
  ["BI_quantity_1"; "BI_quantity_2"; "BI_quantity_3"; "BI_quantity_4"; "BI_quantity_5"]%string.
Definition offer_price_fields : list string :=
  ["OF_price_1"; "OF_price_2"; "OF_price_3"; "OF_price_4"; "OF_price_5"]%string.
Definition offer_quantity_fields : list string :=
  ["OF_quantity_1"; "OF_quantity_2"; "OF_quantity_3"; "OF_quantity_4"; "OF_quantity_5"]%string.

(** pandas [Timestamp.to_pydatetime()]: the nanoseconds are dropped. *)
Definition to_pydatetime (ns : Z) : pyvalue := VDatetime (ns / 1000)%Z.

(** Lines 66-69: [time_value.to_pydatetime()] when the value has that method
    (a pandas Timestamp), the value itself otherwise. *)
Definition stored_time (time_value : pyvalue) : pyvalue :=
  match time_value with
  | VTimestamp ns => to_pydatetime ns
  | _ => time_value
  end.

Section FeedApplier.

(** Python's [float(s)] on a string: [None] when [s] does not parse. *)
Variable parse_float : string -> option float.

(** [float(v)] *)
Definition py_float (v : pyvalue) : py_error + float :=
  match v with
  | VFloat f => inr f
  | VStr s => match parse_float s with Some f => inr f | None => inl ValueError end
  | VTimestamp _ | VDatetime _ => inl TypeError
  end.

(** [float(row[k])] *)
Definition get_float (r : row) (k : string) : py_error + float :=
  match row_get r k with
  | None => inl (KeyError k)
  | Some v => py_float v
  end.

(** The list literal [[float(row[k1]), ..., float(row[k5])]], evaluated left to right. *)
Fixpoint get_floats (r : row) (ks : list string) : py_error + list float :=
  match ks with
  | [] => inr []
  | k :: ks' =>
      let* f := get_float r k in
      let* fs := get_floats r ks' in
      inr (f :: fs)
  end.

(** Lines 42-59: the four lists, in the order the source builds them. *)
Definition extract_levels (r : row)
  : py_error + (list float * list float * list float * list float) :=
  let* bid_prices := get_floats r bid_price_fields in
  let* bid_quantities := get_floats r bid_quantity_fields in
  let* offer_prices := get_floats r offer_price_fields in
  let* offer_quantities := get_floats r offer_quantity_fields in
  inr (bid_prices, bid_quantities, offer_prices, offer_quantities).

(** [update_order_book(order_book, row)]: the book object is mutated in place,
    so the result is the book's state when the call returns or raises,
    together with the exception raised, if any. *)
Definition update_order_book (ob : OrderBook) (r : row) : OrderBook * option py_error :=
  match extract_levels r with
  | inl e => (ob, Some e)
  | inr (bid_prices, bid_quantities, offer_prices, offer_quantities) =>
      let ob1 := update_bids ob bid_prices bid_quantities in
      let ob2 := update_offers ob1 offer_prices offer_quantities in
      match row_get r "time"%string with
      | None => (ob2, Some (KeyError "time"))
      | Some time_value =>
          (mkOrderBook (security ob2) (bids ob2) (offers ob2) (Some (stored_time time_value)),
           None)
      end
  end.

End FeedApplier.

(** A row holding the twenty level fields as numbers and, when given, a
    [time] field. *)
Definition levels_row (bp bq op oq : list float) (time : option pyvalue) : row :=
  combine bid_price_fields (map VFloat bp) ++ combine bid_quantity_fields (map VFloat bq)
  ++ combine offer_price_fields (map VFloat op) ++ combine offer_quantity_fields (map VFloat oq)
  ++ match time with Some t => [("time"%string, t)] | None => [] end.

(** ** Registry of books and file processing (run_data.py) *)

(** The [order_books] dict, security -> OrderBook, in insertion order.  Each
    book object is held by this dict only, so mutating it in place is
    replacing its entry. *)
Definition registry := list (string * OrderBook).

Fixpoint reg_get (reg : registry) (k : string) : option OrderBook :=
  match reg with
  | [] => None
  | (k', ob) :: t => if String.eqb k' k then Some ob else reg_get t k
  end.

(** [order_books[k] = ob]: an existing key keeps its place, a new key is
    appended. *)
Fixpoint reg_set (reg : registry) (k : string) (ob : OrderBook) : registry :=
  match reg with
  | [] => [(k, ob)]
  | (k', ob') :: t => if String.eqb k' k then (k', ob) :: t else (k', ob') :: reg_set t k ob
  end.

(** The DataFrame returned by [read_market_data] (rows sorted by time), or
    the exception raised while reading the file. *)
Definition read_result := (py_error + list row)%type.

Section FileProcessing.

Variable parse_float : string -> option float.

(** Python's [str(v)] on a value that is not a string. *)
Variable py_str_other : pyvalue -> string.

(** [str(v)] *)
Definition py_str (v : pyvalue) : string :=
  match v with
  | VStr s => s
  | _ => py_str_other v
  end.

(** One iteration of the loop of [process_file] (lines 87-94): the book is
    created on first sight of its security, then updated in place; an
    exception leaves the book in the state the update reached. *)
Definition process_row (reg : registry) (r : row) : registry * option py_error :=
  match row_get r "security"%string with
  | None => (reg, Some (KeyError "security"))
  | Some v =>
      let sec := py_str v in
      let reg1 := match reg_get reg sec with
                  | Some _ => reg
                  | None => reg_set reg sec (new_order_book sec)
                  end in
      let ob := match reg_get reg1 sec with
                | Some ob => ob
                | None => new_order_book sec
                end in
      let '(ob', err) := update_order_book parse_float ob r in
      (reg_set reg1 sec ob', err)
  end.

(** The loop over [df.iterrows()]: the first exception ends it and
    propagates out of [process_file]. *)
Fixpoint process_rows (reg : registry) (rows : list row) : registry * option py_error :=
  match rows with
  | [] => (reg, None)
  | r :: rs =>
      match process_row reg r with
      | (reg', None) => process_rows reg' rs
      | (reg', Some e) => (reg', Some e)
      end
  end.

(** [process_file(file_path, order_books)] *)
Definition process_file (reg : registry) (file : read_result) : registry * option py_error :=
  match file with
  | inl e => (reg, Some e)
  | inr rows => process_rows reg rows
  end.

(** [run(data_dir)], given whether the directory exists and the files found
    in it (in sorted order): [None] is the [FileNotFoundError] it raises.
    Every file runs in a [try] whose [except] only prints, so the registry
    keeps what a failing file did before it raised. *)
Definition run (dir_exists : bool) (files : list read_result) : option registry :=
  if dir_exists then
    Some (fold_left (fun reg file => fst (process_file reg file)) files [])
  else None.

End FileProcessing.

(** ** The levels of a side, as the spec describes them *)

(** A side as the mapping price -> quantity it denotes. *)
Definition side_map := float -> option float.

(** Reconciling one index, following the spec's three cases:
    price > 0 and quantity > 0 sets the level; price > 0 and quantity == 0
    removes a present level and leaves an absent one alone; price == 0 is
    skipped.  Inputs outside these cases are left as they are. *)
Definition spec_level (m : side_map) (pq : float * float) : side_map :=
  let '(p, q) := pq in
  if (0 <? p) && (0 <? q) then fun k => if k =? p then Some q else m k
  else if (0 <? p) && (q =? 0) then
    match m p with
    | Some _ => fun k => if k =? p then None else m k
    | None => m
    end
  else m.

(** Indices i = 0..4 in order. *)
Definition spec_reconcile (m : side_map) (levels : list (float * float)) : side_map :=
  fold_left spec_level levels m.

(** A side whose keys are positive prices, each at most once. *)
Definition wf_side (d : odict) : Prop :=
  Forall (fun kv => (0 <? fst kv) = true) d /\ NoDup (map fst d).

(** The calls a book receives after construction. *)
Inductive book_op : Type :=
| OpUpdateBids (prices quantities : list float)
| OpUpdateOffers (prices quantities : list float).

Definition apply_op (ob : OrderBook) (op : book_op) : OrderBook :=
  match op with
  | OpUpdateBids prices quantities => update_bids ob prices quantities
  | OpUpdateOffers prices quantities => update_offers ob prices quantities
  end.

(** [OrderBook(sec)] followed by the calls [ops], in order. *)
Definition run_ops (sec : string) (ops : list book_op) : OrderBook :=
  fold_left apply_op ops (new_order_book sec).

(** [fpos x] is Python's [x > 0.0]. *)
Definition fpos (x : float) : Prop := (0 <? x) = true.

(** Strict order of the items of a bid (resp. offer) side. *)
Definition desc_rel (a b : float * float) : Prop := (fst b <? fst a) = true.
Definition asc_rel (a b : float * float) : Prop := (fst a <? fst b) = true.

(** What every reachable book satisfies. *)
Definition book_inv (ob : OrderBook) : Prop :=
  wf_side (bids ob) /\ StronglySorted desc_rel (bids ob)
  /\ wf_side (offers ob) /\ StronglySorted asc_rel (offers ob).

(** ** Facts on the order of positive doubles *)

Module FloatOrder.

Definition PosSF (f : spec_float) : Prop :=
  (exists m e, f = S754_finite false m e) \/ f = S754_infinity false.

Lemma Prim2SF_zero : Prim2SF 0 = S754_zero false.
Proof. vm_compute. reflexivity. Qed.

Lemma pos_shape (x : float) : (0 <? x) = true -> PosSF (Prim2SF x).
Proof.
  rewrite FloatAxioms.ltb_spec, Prim2SF_zero. unfold PosSF.
  destruct (Prim2SF x) as [s|s| |s m e]; try destruct s; cbn; try discriminate; eauto.
Qed.

Ltac pos_cases H :=
  destruct H as [[? [? ?]] | ?]; subst.

Ltac cmp_crush :=
  cbn in *;
  repeat match goal with
  | |- context [Pos.compare_cont Eq ?a ?b] =>
      change (Pos.compare_cont Eq a b) with (Pos.compare a b)
  | H : context [Pos.compare_cont Eq ?a ?b] |- _ =>
      change (Pos.compare_cont Eq a b) with (Pos.compare a b) in H
  end;
  repeat match goal with
  | |- context [Z.compare ?a ?b] => destruct (Z.compare_spec a b)
  | H : context [Z.compare ?a ?b] |- _ => destruct (Z.compare_spec a b)
  | |- context [Pos.compare ?a ?b] => destruct (Pos.compare_spec a b)
  | H : context [Pos.compare ?a ?b] |- _ => destruct (Pos.compare_spec a b)
  end;
  subst; try discriminate; try lia; auto.

Lemma sf_refl f : PosSF f -> SFcompare f f = Some Eq.
Proof. intros H; pos_cases H; cmp_crush. Qed.

Lemma sf_eq f g : PosSF f -> SFcompare g f = Some Eq -> g = f.
Proof.
  intros H; pos_cases H; destruct g as [s|s| |s m e]; try destruct s;
    intros E; cmp_crush; inversion E; cmp_crush.
Qed.

Lemma sf_eq_l f g : PosSF f -> SFcompare f g = Some Eq -> g = f.
Proof.
  intros H; pos_cases H; destruct g as [s|s| |s m e]; try destruct s;
    intros E; cmp_crush; inversion E; cmp_crush.
Qed.

Lemma sf_lt_gt f g : PosSF f -> PosSF g ->
  SFcompare f g = Some Lt -> SFcompare g f = Some Gt.
Proof. intros Hf Hg; pos_cases Hf; pos_cases Hg; intros E; cmp_crush. Qed.

Lemma sf_total f g : PosSF f -> PosSF g ->
  SFcompare f g = Some Lt \/ SFcompare f g = Some Eq \/ SFcompare g f = Some Lt.
Proof. intros Hf Hg; pos_cases Hf; pos_cases Hg; cmp_crush. Qed.

Lemma sf_trans f g h : PosSF f -> PosSF g -> PosSF h ->
  SFcompare f g = Some Lt -> SFcompare g h = Some Lt -> SFcompare f h = Some Lt.
Proof.
  intros Hf Hg Hh; pos_cases Hf; pos_cases Hg; pos_cases Hh; intros E1 E2; cmp_crush.
Qed.

End FloatOrder.

(** The float-level order facts used by the proofs. *)
Section FloatFacts.
Import FloatOrder.

Lemma feqb_refl x : fpos x -> (x =? x) = true.
Proof.
  intros H. apply pos_shape in H. rewrite FloatAxioms.eqb_spec. unfold SFeqb.
  now rewrite (sf_refl _ H).
Qed.

Lemma feqb_eq x y : fpos y -> (x =? y) = true -> x = y.
Proof.
  intros H E. apply pos_shape in H. rewrite FloatAxioms.eqb_spec in E. unfold SFeqb in E.
  destruct (SFcompare (Prim2SF x) (Prim2SF y)) as [[]|] eqn:C; try discriminate.
  apply Prim2SF_inj. now apply sf_eq.
Qed.

Lemma feqb_eq_l x y : fpos x -> (x =? y) = true -> x = y.
Proof.
  intros H E. apply pos_shape in H. rewrite FloatAxioms.eqb_spec in E. unfold SFeqb in E.
  destruct (SFcompare (Prim2SF x) (Prim2SF y)) as [[]|] eqn:C; try discriminate.
  symmetry. apply Prim2SF_inj. now apply sf_eq_l.
Qed.

Lemma feqb_pos_l x y : fpos x -> (x =? y) = true <-> x = y.
Proof. split; [now apply feqb_eq_l | intros <-; now apply feqb_refl]. Qed.

Lemma feqb_pos_r x y : fpos y -> (x =? y) = true <-> x = y.
Proof. split; [now apply feqb_eq | intros ->; now apply feqb_refl]. Qed.

Lemma feqb_neq x y : fpos y -> x <> y -> (x =? y) = false.
Proof.
  intros H N. destruct (x =? y) eqn:E; auto. exfalso. apply N. now apply feqb_eq.
Qed.

Lemma flt_irrefl x : fpos x -> (x <? x) = false.
Proof.
  intros H. apply pos_shape in H. rewrite FloatAxioms.ltb_spec. unfold SFltb. now rewrite (sf_refl _ H).
Qed.

Lemma flt_neq x y : fpos x -> (x <? y) = true -> x <> y.
Proof. intros H L ->. now rewrite flt_irrefl in L. Qed.

Lemma flt_asym x y : fpos x -> fpos y -> (x <? y) = true -> (y <? x) = false.
Proof.
  intros Hx Hy. apply pos_shape in Hx, Hy. rewrite !FloatAxioms.ltb_spec. unfold SFltb.
  destruct (SFcompare (Prim2SF x) (Prim2SF y)) as [[]|] eqn:C; try discriminate.
  now rewrite (sf_lt_gt _ _ Hx Hy C).
Qed.

Lemma flt_total x y : fpos x -> fpos y -> x <> y ->
  (x <? y) = true \/ (y <? x) = true.
Proof.
  intros Hx Hy N. apply pos_shape in Hx, Hy. rewrite !FloatAxioms.ltb_spec. unfold SFltb.
  destruct (sf_total _ _ Hx Hy) as [C|[C|C]]; rewrite C; auto.
  exfalso. apply N, Prim2SF_inj. now apply sf_eq.
Qed.

Lemma flt_trans x y z : fpos x -> fpos y -> fpos z ->
  (x <? y) = true -> (y <? z) = true -> (x <? z) = true.
Proof.
  intros Hx Hy Hz. apply pos_shape in Hx, Hy, Hz. rewrite !FloatAxioms.ltb_spec. unfold SFltb.
  destruct (SFcompare (Prim2SF x) (Prim2SF y)) as [[]|] eqn:C1; try discriminate.
  destruct (SFcompare (Prim2SF y) (Prim2SF z)) as [[]|] eqn:C2; try discriminate.
  now rewrite (sf_trans _ _ _ Hx Hy Hz C1 C2).
Qed.

Lemma flt_neg_not_pos p : (p <? 0) = true -> (0 <? p) = false.
Proof.
  rewrite !FloatAxioms.ltb_spec, Prim2SF_zero. unfold SFltb.
  destruct (Prim2SF p) as [s|s| |s m e]; try destruct s; cbn; congruence.
Qed.

Lemma flt_neg_not_zero p : (p <? 0) = true -> (p =? 0) = false.
Proof.
  rewrite FloatAxioms.ltb_spec, FloatAxioms.eqb_spec, Prim2SF_zero. unfold SFltb, SFeqb.
  destruct (Prim2SF p) as [s|s| |s m e]; try destruct s; cbn; congruence.
Qed.

End FloatFacts.

(** ** Lemmas on one side *)

Section SideLemmas.

Lemma feqb_sym_pos p k : fpos p -> (p =? k) = (k =? p).
Proof.
  intros Hp. destruct (k =? p) eqn:E.
  - apply feqb_pos_r in E; auto. subst. now apply feqb_refl.
  - destruct (p =? k) eqn:E'; auto. apply feqb_pos_l in E'; auto. subst.
    now rewrite feqb_refl in E.
Qed.

Lemma find_notin d k : Forall (fun kv => fpos (fst kv)) d -> fpos k ->
  ~ In k (map fst d) -> od_find d k = None.
Proof.
  induction d as [|[k' v'] t IH]; cbn; intros Hf Hk Hn; auto.
  inversion Hf; subst. rewrite feqb_neq; auto.
Qed.

Lemma find_setitem d p q k : wf_side d -> fpos p ->
  od_find (od_setitem d p q) k = if k =? p then Some q else od_find d k.
Proof.
  intros [Hf Hn] Hp. induction d as [|[k' v'] t IH]; cbn.
  - rewrite (feqb_sym_pos _ _ Hp). now destruct (k =? p).
  - inversion Hf as [|? ? Hk' Hft]; inversion Hn as [|? ? Hnin Hnt]; subst. cbn in Hk'.
    destruct (k' =? p) eqn:E1.
    + apply feqb_pos_r in E1; auto. subst. cbn.
      rewrite (feqb_sym_pos _ _ Hp). now destruct (k =? p).
    + cbn. rewrite IH; auto. destruct (k' =? k) eqn:E2; auto.
      apply feqb_pos_l in E2; auto. subst. now rewrite E1.
Qed.

Lemma find_delitem d p k : wf_side d -> fpos p ->
  od_find (od_delitem d p) k = if k =? p then None else od_find d k.
Proof.
  intros [Hf Hn] Hp. induction d as [|[k' v'] t IH]; cbn.
  - now destruct (k =? p).
  - inversion Hf as [|? ? Hk' Hft]; inversion Hn as [|? ? Hnin Hnt]; subst. cbn in Hk'.
    destruct (k' =? p) eqn:E1.
    + apply feqb_pos_r in E1; auto. subst.
      rewrite (feqb_sym_pos _ _ Hp). destruct (k =? p) eqn:E2; auto.
      apply feqb_pos_r in E2; auto. subst. now apply find_notin.
    + cbn. rewrite IH; auto. destruct (k' =? k) eqn:E2; auto.
      apply feqb_pos_l in E2; auto. subst. now rewrite E1.
Qed.

Lemma keys_setitem d p q x : In x (map fst (od_setitem d p q)) -> In x (map fst d) \/ x = p.
Proof.
  induction d as [|[k' v'] t IH]; cbn.
  - intuition.
  - destruct (k' =? p); cbn; intuition.
Qed.

Lemma keys_delitem d p x : In x (map fst (od_delitem d p)) -> In x (map fst d).
Proof.
  induction d as [|[k' v'] t IH]; cbn; auto.
  destruct (k' =? p); cbn; intuition.
Qed.

Lemma wf_setitem d p q : wf_side d -> fpos p -> wf_side (od_setitem d p q).
Proof.
  intros [Hf Hn] Hp. induction d as [|[k' v'] t IH]; cbn.
  - split; repeat constructor; auto.
  - inversion Hf as [|? ? Hk' Hft]; inversion Hn as [|? ? Hnin Hnt]; subst. cbn in Hk'.
    destruct (k' =? p) eqn:E1.
    + split; constructor; auto.
    + destruct (IH Hft Hnt) as [IHf IHn]. split; constructor; auto.
      intros Hin. apply keys_setitem in Hin as [Hin|Hin]; auto.
      subst. now rewrite feqb_refl in E1.
Qed.

Lemma wf_delitem d p : wf_side d -> wf_side (od_delitem d p).
Proof.
  intros [Hf Hn]. induction d as [|[k' v'] t IH]; cbn.
  - split; constructor.
  - inversion Hf as [|? ? Hk' Hft]; inversion Hn as [|? ? Hnin Hnt]; subst.
    destruct (k' =? p) eqn:E1.
    + split; auto.
    + destruct (IH Hft Hnt) as [IHf IHn]. split; constructor; auto.
      intros Hin. now apply keys_delitem in Hin.
Qed.

Lemma apply_level_spec d m pq : wf_side d -> (forall k, od_find d k = m k) ->
  wf_side (apply_level d pq) /\ (forall k, od_find (apply_level d pq) k = spec_level m pq k).
Proof.
  intros Hw Hm. destruct pq as [p q]. unfold apply_level, spec_level.
  destruct (0 <? p) eqn:Hp; cbn; [|auto].
  destruct (0 <? q) eqn:Hq; cbn.
  - split; [now apply wf_setitem|]. intros k. rewrite find_setitem; auto.
    now rewrite Hm.
  - destruct (q =? 0); [|auto]. unfold od_contains. rewrite Hm.
    destruct (m p); [|auto].
    split; [now apply wf_delitem|]. intros k. rewrite find_delitem; auto.
    now rewrite Hm.
Qed.

Lemma fold_apply_level_spec levels d m : wf_side d -> (forall k, od_find d k = m k) ->
  wf_side (fold_left apply_level levels d)
  /\ (forall k, od_find (fold_left apply_level levels d) k = spec_reconcile m levels k).
Proof.
  unfold spec_reconcile. revert d m.
  induction levels as [|pq levels IH]; cbn; intros d m Hw Hm; auto.
  destruct (apply_level_spec d m pq Hw Hm) as [Hw' Hm']. now apply IH.
Qed.

End SideLemmas.

(** ** Sorting and rebuilding a side *)


Section SortLemmas.

Lemma perm_insert_desc x l : Permutation (insert_desc x l) (x :: l).
Proof.
  induction l as [|h t IH]; cbn; auto.
  destruct (item_lt x h); auto.
  eapply perm_trans; [apply perm_skip, IH | apply perm_swap].
Qed.

Lemma perm_sort_desc l : Permutation (sort_desc l) l.
Proof.
  induction l as [|h t IH]; cbn; auto.
  eapply perm_trans; [apply perm_insert_desc | now apply perm_skip].
Qed.

Lemma perm_insert_asc x l : Permutation (insert_asc x l) (x :: l).
Proof.
  induction l as [|h t IH]; cbn; auto.
  destruct (item_lt h x); auto.
  eapply perm_trans; [apply perm_skip, IH | apply perm_swap].
Qed.

Lemma perm_sort_asc l : Permutation (sort_asc l) l.
Proof.
  induction l as [|h t IH]; cbn; auto.
  eapply perm_trans; [apply perm_insert_asc | now apply perm_skip].
Qed.

Lemma wf_perm d1 d2 : Permutation d1 d2 -> wf_side d1 -> wf_side d2.
Proof.
  intros HP [Hf Hn]. split.
  - exact (Permutation_Forall HP Hf).
  - eapply Permutation_NoDup; [apply Permutation_map, HP | exact Hn].
Qed.

Lemma item_lt_pos a b : fpos (fst b) -> fst a <> fst b -> item_lt a b = (fst a <? fst b).
Proof. intros Hb N. unfold item_lt. now rewrite feqb_neq. Qed.

Lemma sorted_insert_desc x l : wf_side (x :: l) -> StronglySorted desc_rel l ->
  StronglySorted desc_rel (insert_desc x l).
Proof.
  induction l as [|h t IH]; cbn; intros Hw Hs.
  - repeat constructor.
  - destruct Hw as [Hf Hn]. inversion Hf as [|? ? Hx Hf1]; inversion Hf1 as [|? ? Hh Hft]; subst.
    inversion Hn as [|? ? Hnx Hn1]; inversion Hn1 as [|? ? Hnh Hnt]; subst.
    inversion Hs as [|? ? Hst Hht]; subst.
    assert (Hxh : fst x <> fst h) by (intros E; apply Hnx; cbn; now left).
    rewrite item_lt_pos by auto. destruct (fst x <? fst h) eqn:L.
    + constructor.
      * apply IH; auto. split; constructor; auto. intros Hin; apply Hnx; cbn; now right.
      * apply (Permutation_Forall (Permutation_sym (perm_insert_desc x t))).
        constructor; auto.
    + destruct (flt_total (fst x) (fst h) Hx Hh Hxh) as [L'|L']; [congruence|].
      constructor; [now constructor|]. constructor; [exact L'|].
      rewrite Forall_forall in Hht, Hft |- *. intros y Hy.
      unfold desc_rel in *. apply (flt_trans _ (fst h)); auto; exact (Hft y Hy).
Qed.

Lemma sorted_sort_desc l : wf_side l -> StronglySorted desc_rel (sort_desc l).
Proof.
  induction l as [|h t IH]; cbn; intros Hw; [constructor|].
  apply sorted_insert_desc.
  - apply (wf_perm (h :: t)); [apply perm_skip, Permutation_sym, perm_sort_desc | exact Hw].
  - apply IH. destruct Hw as [Hf Hn]. inversion Hf; inversion Hn; subst. split; auto.
Qed.

Lemma sorted_insert_asc x l : wf_side (x :: l) -> StronglySorted asc_rel l ->
  StronglySorted asc_rel (insert_asc x l).
Proof.
  induction l as [|h t IH]; cbn; intros Hw Hs.
  - repeat constructor.
  - destruct Hw as [Hf Hn]. inversion Hf as [|? ? Hx Hf1]; inversion Hf1 as [|? ? Hh Hft]; subst.
    inversion Hn as [|? ? Hnx Hn1]; inversion Hn1 as [|? ? Hnh Hnt]; subst.
    inversion Hs as [|? ? Hst Hht]; subst.
    assert (Hxh : fst h <> fst x) by (intros E; apply Hnx; cbn; now left).
    rewrite item_lt_pos by auto. destruct (fst h <? fst x) eqn:L.
    + constructor.
      * apply IH; auto. split; constructor; auto. intros Hin; apply Hnx; cbn; now right.
      * apply (Permutation_Forall (Permutation_sym (perm_insert_asc x t))).
        constructor; auto.
    + destruct (flt_total (fst h) (fst x) Hh Hx Hxh) as [L'|L']; [congruence|].
      constructor; [now constructor|]. constructor; [exact L'|].
      rewrite Forall_forall in Hht, Hft |- *. intros y Hy.
      unfold asc_rel in *. apply (flt_trans _ (fst h)); auto; exact (Hft y Hy).
Qed.

Lemma sorted_sort_asc l : wf_side l -> StronglySorted asc_rel (sort_asc l).
Proof.
  induction l as [|h t IH]; cbn; intros Hw; [constructor|].
  apply sorted_insert_asc.
  - apply (wf_perm (h :: t)); [apply perm_skip, Permutation_sym, perm_sort_asc | exact Hw].
  - apply IH. destruct Hw as [Hf Hn]. inversion Hf; inversion Hn; subst. split; auto.
Qed.

End SortLemmas.

Section RebuildLemmas.

Lemma setitem_new d k v : Forall (fun kv => fpos (fst kv)) d -> fpos k ->
  ~ In k (map fst d) -> od_setitem d k v = d ++ [(k, v)].
Proof.
  induction d as [|[k' v'] t IH]; cbn; intros Hf Hk Hn; auto.
  inversion Hf; subst. rewrite feqb_neq; auto. f_equal. apply IH; auto.
Qed.

Lemma fold_setitem_app l acc : wf_side (acc ++ l) ->
  fold_left (fun d kv => od_setitem d (fst kv) (snd kv)) l acc = acc ++ l.
Proof.
  revert acc. induction l as [|[k v] l IH]; cbn; intros acc [Hf Hn].
  - now rewrite app_nil_r.
  - apply Forall_app in Hf as [Hfa Hfl]. inversion Hfl; subst.
    rewrite map_app in Hn. cbn in Hn.
    rewrite setitem_new; auto.
    + replace (acc ++ (k, v) :: l) with ((acc ++ [(k, v)]) ++ l) by (now rewrite <- app_assoc).
      apply IH. rewrite <- app_assoc. split.
      * apply Forall_app; auto.
      * rewrite map_app. exact Hn.
    + intros Hin. apply (NoDup_remove_2 _ _ _ Hn). apply in_or_app; now left.
Qed.

Lemma of_items_id l : wf_side l -> of_items l = l.
Proof. intros Hw. exact (fold_setitem_app l [] Hw). Qed.

Lemma sort_desc_sorted l : wf_side l -> StronglySorted desc_rel l -> sort_desc l = l.
Proof.
  induction l as [|h t IH]; cbn; intros [Hf Hn] Hs; auto.
  inversion Hf as [|? ? Hh Hft]; inversion Hn as [|? ? Hnh Hnt]; inversion Hs as [|? ? Hst Hht]; subst.
  rewrite IH by (first [split; auto | auto]). destruct t as [|h' t']; cbn; auto.
  inversion Hft as [|? ? Hh' _]; inversion Hht as [|? ? Hlt _]; subst.
  unfold desc_rel in Hlt.
  rewrite item_lt_pos by (auto; intros E; apply Hnh; cbn; left; auto).
  now rewrite (flt_asym _ _ Hh' Hh Hlt).
Qed.

Lemma sort_asc_sorted l : wf_side l -> StronglySorted asc_rel l -> sort_asc l = l.
Proof.
  induction l as [|h t IH]; cbn; intros [Hf Hn] Hs; auto.
  inversion Hf as [|? ? Hh Hft]; inversion Hn as [|? ? Hnh Hnt]; inversion Hs as [|? ? Hst Hht]; subst.
  rewrite IH by (first [split; auto | auto]). destruct t as [|h' t']; cbn; auto.
  inversion Hft as [|? ? Hh' _]; inversion Hht as [|? ? Hlt _]; subst.
  unfold asc_rel in Hlt.
  rewrite item_lt_pos by (auto; intros E; apply Hnh; cbn; left; auto).
  now rewrite (flt_asym _ _ Hh Hh' Hlt).
Qed.

Lemma find_perm d1 d2 k : Permutation d1 d2 -> wf_side d1 -> od_find d1 k = od_find d2 k.
Proof.
  induction 1 as [|[x v] l l' HP IH|[x v] [y w] l|l l' l'' HP1 IH1 HP2 IH2]; cbn; intros Hw; auto.
  - destruct (x =? k); auto. apply IH. destruct Hw as [Hf Hn].
    inversion Hf; inversion Hn; subst. split; auto.
  - destruct Hw as [Hf Hn]. inversion Hf as [|? ? Hy Hf1]; inversion Hf1 as [|? ? Hx _]; subst.
    inversion Hn as [|? ? Hny _]; subst. cbn in Hx, Hy.
    destruct (x =? k) eqn:E1, (y =? k) eqn:E2; auto.
    apply feqb_pos_l in E1, E2; auto. subst. exfalso. apply Hny. cbn. now left.
  - rewrite IH1 by exact Hw. apply IH2. now apply (wf_perm l).
Qed.

Lemma keys_sorted_desc d : StronglySorted desc_rel d ->
  StronglySorted (fun a b => (b <? a) = true) (map fst d).
Proof.
  induction d as [|h t IH]; cbn; intros Hs; [constructor|].
  inversion Hs; subst. constructor; auto. now apply Forall_map.
Qed.

Lemma keys_sorted_asc d : StronglySorted asc_rel d ->
  StronglySorted (fun a b => (a <? b) = true) (map fst d).
Proof.
  induction d as [|h t IH]; cbn; intros Hs; [constructor|].
  inversion Hs; subst. constructor; auto. now apply Forall_map.
Qed.

(** What [update_bids] leaves on the bid side when the guard does not fire. *)
Lemma rebuild_bids d : wf_side d ->
  let d' := of_items (sort_desc d) in
  wf_side d' /\ StronglySorted desc_rel d' /\ (forall k, od_find d' k = od_find d k).
Proof.
  intros Hw d'. assert (Hws : wf_side (sort_desc d)).
  { apply (wf_perm d); [apply Permutation_sym, perm_sort_desc | exact Hw]. }
  subst d'. rewrite of_items_id by exact Hws. split; [exact Hws|]. split.
  - now apply sorted_sort_desc.
  - intros k. symmetry. apply find_perm; [apply Permutation_sym, perm_sort_desc | exact Hw].
Qed.

Lemma rebuild_offers d : wf_side d ->
  let d' := of_items (sort_asc d) in
  wf_side d' /\ StronglySorted asc_rel d' /\ (forall k, od_find d' k = od_find d k).
Proof.
  intros Hw d'. assert (Hws : wf_side (sort_asc d)).
  { apply (wf_perm d); [apply Permutation_sym, perm_sort_asc | exact Hw]. }
  subst d'. rewrite of_items_id by exact Hws. split; [exact Hws|]. split.
  - now apply sorted_sort_asc.
  - intros k. symmetry. apply find_perm; [apply Permutation_sym, perm_sort_asc | exact Hw].
Qed.

End RebuildLemmas.

(** ** Book-level lemmas *)

Section BookLemmas.

Lemma inv_update_bids ob prices quantities :
  book_inv ob -> book_inv (update_bids ob prices quantities).
Proof.
  intros (Hb & Hbs & Ho & Hos). unfold update_bids.
  destruct (all_zero prices); [split; [|split; [|split]]; auto|]. cbn.
  destruct (fold_apply_level_spec (combine prices quantities) (bids ob) (od_find (bids ob)) Hb
              (fun _ => eq_refl)) as [Hw _].
  destruct (rebuild_bids _ Hw) as (Hw' & Hs' & _). split; [|split; [|split]]; auto.
Qed.

Lemma inv_update_offers ob prices quantities :
  book_inv ob -> book_inv (update_offers ob prices quantities).
Proof.
  intros (Hb & Hbs & Ho & Hos). unfold update_offers.
  destruct (all_zero prices); [split; [|split; [|split]]; auto|]. cbn.
  destruct (fold_apply_level_spec (combine prices quantities) (offers ob) (od_find (offers ob)) Ho
              (fun _ => eq_refl)) as [Hw _].
  destruct (rebuild_offers _ Hw) as (Hw' & Hs' & _). split; [|split; [|split]]; auto.
Qed.

Lemma inv_run_ops sec ops : book_inv (run_ops sec ops).
Proof.
  unfold run_ops. assert (H0 : book_inv (new_order_book sec)).
  { repeat split; constructor. }
  revert H0. generalize (new_order_book sec). induction ops as [|op ops IH]; cbn; auto.
  intros ob H. apply IH. destruct op; [apply inv_update_bids | apply inv_update_offers]; auto.
Qed.

Lemma fpos_not_zero p : fpos p -> (p =? 0) = false.
Proof.
  intros H. apply FloatOrder.pos_shape in H.
  rewrite FloatAxioms.eqb_spec, FloatOrder.Prim2SF_zero. unfold SFeqb.
  destruct H as [[m [e ->]] | ->]; reflexivity.
Qed.

Lemma setitem_found d k v : od_find d k = Some v -> od_setitem d k v = d.
Proof.
  induction d as [|[k' v'] t IH]; cbn; [discriminate|].
  destruct (k' =? k); [congruence|]. intros H. now rewrite IH.
Qed.

Lemma filter_key_notin (d : odict) (k : float) : Forall (fun kv => fpos (fst kv)) d -> fpos k ->
  ~ In k (map fst d) -> filter (fun kv => fst kv =? k) d = [].
Proof.
  induction d as [|[k' v'] t IH]; cbn; intros Hf Hk Hn; auto.
  inversion Hf; subst. rewrite feqb_neq; auto.
Qed.

Lemma filter_key_found (d : odict) (k v : float) : wf_side d -> od_find d k = Some v ->
  filter (fun kv => fst kv =? k) d = [(k, v)].
Proof.
  intros [Hf Hn]. induction d as [|[k' v'] t IH]; cbn; [discriminate|].
  inversion Hf as [|? ? Hk' Hft]; inversion Hn as [|? ? Hnin Hnt]; subst. cbn in Hk'.
  destruct (k' =? k) eqn:E.
  - intros H. inversion H; subst. apply feqb_pos_l in E; auto. subst.
    now rewrite filter_key_notin.
  - auto.
Qed.

Lemma apply_level_zero_price d q : apply_level d (0, q) = d.
Proof. reflexivity. Qed.

Lemma apply_level_set d p q : fpos p -> fpos q -> apply_level d (p, q) = od_setitem d p q.
Proof. intros Hp Hq. unfold apply_level. now rewrite Hp, Hq. Qed.

(** A bid side that already holds [q] at [p] is left as it is by a second
    [update_bids] with [(p, q)]. *)
Lemma update_bids_present ob p q : wf_side (bids ob) -> StronglySorted desc_rel (bids ob) ->
  fpos p -> fpos q -> od_find (bids ob) p = Some q ->
  update_bids ob [p; 0; 0; 0; 0] [q; 0; 0; 0; 0] = ob.
Proof.
  intros Hw Hs Hp Hq Hf. unfold update_bids. cbn [all_zero forallb].
  rewrite (fpos_not_zero p Hp). cbn [andb combine fold_left].
  rewrite !apply_level_zero_price, apply_level_set by auto.
  rewrite setitem_found by exact Hf. rewrite sort_desc_sorted, of_items_id by auto.
  now destruct ob.
Qed.

Lemma update_offers_present ob p q : wf_side (offers ob) -> StronglySorted asc_rel (offers ob) ->
  fpos p -> fpos q -> od_find (offers ob) p = Some q ->
  update_offers ob [p; 0; 0; 0; 0] [q; 0; 0; 0; 0] = ob.
Proof.
  intros Hw Hs Hp Hq Hf. unfold update_offers. cbn [all_zero forallb].
  rewrite (fpos_not_zero p Hp). cbn [andb combine fold_left].
  rewrite !apply_level_zero_price, apply_level_set by auto.
  rewrite setitem_found by exact Hf. rewrite sort_asc_sorted, of_items_id by auto.
  now destruct ob.
Qed.

End BookLemmas.

(** What every registry built by [run] satisfies. *)
Definition reg_ok (reg : registry) : Prop :=
  NoDup (map fst reg)
  /\ Forall (fun e => security (snd e) = fst e /\ book_inv (snd e)) reg.

Section RegistryLemmas.

Lemma reg_get_in reg k ob : reg_get reg k = Some ob -> In (k, ob) reg.
Proof.
  induction reg as [|[k' ob'] t IH]; cbn; [discriminate|].
  destruct (String.eqb k' k) eqn:E.
  - apply String.eqb_eq in E. subst. intros H; inversion H; now left.
  - intros H; right; auto.
Qed.

Lemma reg_get_set_same reg k ob : reg_get (reg_set reg k ob) k = Some ob.
Proof.
  induction reg as [|[k' ob'] t IH]; cbn.
  - now rewrite String.eqb_refl.
  - destruct (String.eqb k' k) eqn:E; cbn; rewrite ?E; auto.
Qed.

Lemma reg_get_set_other reg k k2 ob : k <> k2 ->
  reg_get (reg_set reg k ob) k2 = reg_get reg k2.
Proof.
  intros N. induction reg as [|[k' ob'] t IH]; cbn.
  - destruct (String.eqb k k2) eqn:E; auto. apply String.eqb_eq in E. contradiction.
  - destruct (String.eqb k' k) eqn:E; cbn.
    + apply String.eqb_eq in E. subst.
      destruct (String.eqb k k2) eqn:E2; auto. apply String.eqb_eq in E2. contradiction.
    + now rewrite IH.
Qed.

Lemma reg_set_keys reg k ob : exists ks, map fst (reg_set reg k ob) = map fst reg ++ ks.
Proof.
  induction reg as [|[k' ob'] t IH]; cbn.
  - now exists [k].
  - destruct (String.eqb k' k); cbn.
    + exists []. now rewrite app_nil_r.
    + destruct IH as [ks E]. exists ks. now rewrite E.
Qed.

Lemma reg_set_in reg k ob x : In x (reg_set reg k ob) -> In x reg \/ x = (k, ob).
Proof.
  induction reg as [|[k' ob'] t IH]; cbn.
  - intuition.
  - destruct (String.eqb k' k) eqn:E; cbn.
    + apply String.eqb_eq in E. subst. intuition.
    + intuition.
Qed.

Lemma reg_set_ok reg k ob : reg_ok reg -> security ob = k -> book_inv ob ->
  reg_ok (reg_set reg k ob).
Proof.
  intros [Hn Hf] Hs Hi. split.
  - clear Hf Hs Hi. induction reg as [|[k' ob'] t IH]; cbn.
    + repeat constructor; auto.
    + inversion Hn as [|? ? Hnin Hnt]; subst.
      destruct (String.eqb k' k) eqn:E; cbn; [now constructor|].
      constructor; auto. intros Hin. apply in_map_iff in Hin as [[k2 ob2] [E2 Hin]].
      cbn in E2. subst. apply reg_set_in in Hin as [Hin|Hin].
      * apply Hnin. apply in_map_iff. now exists (k', ob2).
      * inversion Hin; subst. now rewrite String.eqb_refl in E.
  - rewrite Forall_forall in Hf |- *. intros x Hx.
    apply reg_set_in in Hx as [Hx| ->]; auto.
Qed.

Lemma update_order_book_keeps parse_float ob r :
  book_inv ob ->
  book_inv (fst (update_order_book parse_float ob r))
  /\ security (fst (update_order_book parse_float ob r)) = security ob.
Proof.
  intros Hi. unfold update_order_book.
  destruct (extract_levels parse_float r) as [e|[[[bp bq] op] oq]]; cbn; [auto|].
  assert (H2 : book_inv (update_offers (update_bids ob bp bq) op oq)).
  { apply inv_update_offers, inv_update_bids, Hi. }
  assert (S2 : security (update_offers (update_bids ob bp bq) op oq) = security ob).
  { unfold update_offers, update_bids.
    destruct (all_zero bp), (all_zero op); reflexivity. }
  destruct (row_get r "time"%string); cbn; auto.
Qed.

Lemma process_row_ok parse_float py_str_other reg r :
  reg_ok reg -> reg_ok (fst (process_row parse_float py_str_other reg r)).
Proof.
  intros Hok. unfold process_row.
  destruct (row_get r "security"%string) as [v|]; cbn; [|exact Hok].
  set (sec := py_str py_str_other v).
  set (reg1 := match reg_get reg sec with
               | Some _ => reg
               | None => reg_set reg sec (new_order_book sec)
               end).
  assert (Hok1 : reg_ok reg1).
  { subst reg1. destruct (reg_get reg sec); auto.
    apply reg_set_ok; auto. repeat split; constructor. }
  assert (Hob : forall ob, reg_get reg1 sec = Some ob -> security ob = sec /\ book_inv ob).
  { intros ob Hg. apply reg_get_in in Hg. destruct Hok1 as [_ Hf].
    rewrite Forall_forall in Hf. exact (Hf _ Hg). }
  set (ob := match reg_get reg1 sec with Some ob => ob | None => new_order_book sec end).
  assert (Hob' : security ob = sec /\ book_inv ob).
  { subst ob. destruct (reg_get reg1 sec) eqn:G; [now apply Hob|].
    split; [reflexivity|repeat split; constructor]. }
  destruct Hob' as [Hs Hi].
  destruct (update_order_book_keeps parse_float ob r Hi) as [Hi' Hs'].
  destruct (update_order_book parse_float ob r) as [ob' err]. cbn in *.
  apply reg_set_ok; auto. congruence.
Qed.

Lemma process_rows_ok parse_float py_str_other reg rows :
  reg_ok reg -> reg_ok (fst (process_rows parse_float py_str_other reg rows)).
Proof.
  revert reg. induction rows as [|r rs IH]; cbn; intros reg Hok; auto.
  pose proof (process_row_ok parse_float py_str_other reg r Hok) as H.
  destruct (process_row parse_float py_str_other reg r) as [reg' [e|]]; cbn in *; auto.
Qed.

End RegistryLemmas.

Section RoundTripLemmas.

Lemma find_none_notin d k : Forall (fun kv => fpos (fst kv)) d ->
  od_find d k = None -> ~ In k (map fst d).
Proof.
  induction d as [|[k' v'] t IH]; cbn; intros Hf Hn; auto.
  inversion Hf as [|? ? Hk' Hft]; subst. cbn in Hk'.
  destruct (k' =? k) eqn:E; [discriminate|]. intros [<-|Hin].
  - now rewrite feqb_refl in E.
  - now apply IH.
Qed.

Lemma delitem_perm d k v : od_find d k = Some v ->
  exists k', (k' =? k) = true /\ Permutation d ((k', v) :: od_delitem d k).
Proof.
  induction d as [|[k' v'] t IH]; cbn; [discriminate|].
  destruct (k' =? k) eqn:E.
  - intros H; inversion H; subst. exists k'. auto.
  - intros H. destruct (IH H) as [k2 [E2 HP]]. exists k2. split; auto.
    eapply perm_trans; [apply perm_skip, HP | apply perm_swap].
Qed.

Lemma delitem_in d k x : In x (od_delitem d k) -> In x d.
Proof.
  induction d as [|[k' v'] t IH]; cbn; auto.
  destruct (k' =? k); cbn; intuition.
Qed.

Lemma sorted_delitem (R : float * float -> float * float -> Prop) d k :
  StronglySorted R d -> StronglySorted R (od_delitem d k).
Proof.
  induction d as [|[k' v'] t IH]; cbn; intros Hs; auto.
  inversion Hs as [|? ? Hst Hall]; subst.
  destruct (k' =? k); auto. constructor; auto.
  rewrite Forall_forall in Hall |- *. intros y Hy. apply Hall. now apply delitem_in in Hy.
Qed.

Lemma apply_level_del d p v : fpos p -> od_find d p = Some v ->
  apply_level d (p, 0) = od_delitem d p.
Proof.
  intros Hp Hf. unfold apply_level, od_contains. rewrite Hp, Hf. reflexivity.
Qed.

(** Two strictly sorted arrangements of the same levels are the same list. *)
Lemma sorted_perm_unique (R : float * float -> float * float -> Prop)
  (Hasym : forall a b, fpos (fst a) -> fpos (fst b) -> R a b -> R b a -> False) :
  forall l1 l2, wf_side l1 -> StronglySorted R l1 -> StronglySorted R l2 ->
  Permutation l1 l2 -> l1 = l2.
Proof.
  induction l1 as [|a t1 IH]; intros l2 Hw S1 S2 HP.
  - symmetry. now apply Permutation_nil.
  - destruct l2 as [|b t2]; [now apply Permutation_sym, Permutation_nil_cons in HP|].
    destruct Hw as [Hf Hn].
    assert (Hf2 : Forall (fun kv => fpos (fst kv)) (b :: t2)) by exact (Permutation_Forall HP Hf).
    inversion Hf as [|? ? Ha Hft]; inversion Hf2 as [|? ? Hb _]; subst.
    inversion Hn as [|? ? _ Hnt]; subst.
    inversion S1 as [|? ? S1t A1]; inversion S2 as [|? ? S2t A2]; subst.
    rewrite Forall_forall in A1, A2.
    assert (Eab : a = b).
    { destruct (Permutation_in a HP (or_introl eq_refl)) as [|Ha2]; auto.
      assert (Hb1 : In b (a :: t1)) by (apply (Permutation_in b (Permutation_sym HP)); now left).
      destruct Hb1 as [|Hb1]; auto. exfalso. exact (Hasym a b Ha Hb (A1 b Hb1) (A2 a Ha2)). }
    subst. f_equal. apply IH; auto. now split. now apply Permutation_cons_inv in HP.
Qed.

Lemma desc_asym a b : fpos (fst a) -> fpos (fst b) -> desc_rel a b -> desc_rel b a -> False.
Proof. unfold desc_rel. intros Ha Hb H1 H2. now rewrite (flt_asym _ _ Hb Ha H1) in H2. Qed.

Lemma asc_asym a b : fpos (fst a) -> fpos (fst b) -> asc_rel a b -> asc_rel b a -> False.
Proof. unfold asc_rel. intros Ha Hb H1 H2. now rewrite (flt_asym _ _ Ha Hb H1) in H2. Qed.

(** Setting a new price and then deleting it gives back the side's levels,
    up to the order of the list. *)
Lemma set_then_delete_perm d d1 P Q : wf_side d -> fpos P -> od_find d P = None ->
  Permutation d1 (od_setitem d P Q) -> wf_side d1 ->
  Permutation (od_delitem d1 P) d /\ od_find d1 P = Some Q.
Proof.
  intros [Hf Hn] HP HN HP1 Hw1.
  rewrite setitem_new in HP1 by (auto; now apply find_none_notin).
  assert (HF1 : od_find d1 P = Some Q).
  { rewrite (find_perm d1 (d ++ [(P, Q)]) P HP1 Hw1).
    rewrite <- setitem_new by (auto; now apply find_none_notin).
    rewrite find_setitem by (auto; now split). now rewrite feqb_refl. }
  split; [|exact HF1].
  destruct (delitem_perm d1 P Q HF1) as [k' [E HPk]].
  destruct Hw1 as [Hf1 _].
  assert (Hk' : fpos k').
  { rewrite Forall_forall in Hf1. apply (Hf1 (k', Q)). apply (Permutation_in _ (Permutation_sym HPk)).
    now left. }
  apply feqb_pos_l in E; auto. subst k'.
  apply (Permutation_cons_inv (a := (P, Q))).
  eapply perm_trans; [apply Permutation_sym, HPk|]. eapply perm_trans; [exact HP1|].
  apply Permutation_sym, Permutation_cons_append.
Qed.

End RoundTripLemmas.

(** * Claims *)

(** Sides holding at most one level, used by the witnesses. *)
Ltac solve_wf_side :=
  split; repeat constructor; try (intros []).

(** C1: on a well-formed side, with five prices (not all zero) and five
    quantities, [update_bids] and [update_offers] leave the side denoting the
    mapping obtained by reconciling indices 0..4 in order: price > 0 and
    qty > 0 sets the level, price > 0 and qty == 0 removes a present level
    (an absent one is no error), price == 0 is skipped; an index outside
    these cases (negative or NaN values) leaves the mapping as it is. *)
Theorem update_reconciles_levels (ob : OrderBook) (prices quantities : list float)
  (Hb : wf_side (bids ob)) (Ho : wf_side (offers ob))
  (Hlp : List.length prices = 5%nat) (Hlq : List.length quantities = 5%nat)
  (Hnz : all_zero prices = false) :
  (forall k, od_find (bids (update_bids ob prices quantities)) k
             = spec_reconcile (od_find (bids ob)) (combine prices quantities) k)
  /\ (forall k, od_find (offers (update_offers ob prices quantities)) k
             = spec_reconcile (od_find (offers ob)) (combine prices quantities) k).
Proof.
  unfold update_bids, update_offers. rewrite Hnz. cbn. split.
  - destruct (fold_apply_level_spec (combine prices quantities) (bids ob) (od_find (bids ob)) Hb
                (fun _ => eq_refl)) as [Hw Hf].
    destruct (rebuild_bids _ Hw) as (_ & _ & Hr). intros k. rewrite Hr. apply Hf.
  - destruct (fold_apply_level_spec (combine prices quantities) (offers ob) (od_find (offers ob)) Ho
                (fun _ => eq_refl)) as [Hw Hf].
    destruct (rebuild_offers _ Hw) as (_ & _ & Hr). intros k. rewrite Hr. apply Hf.
Qed.

Lemma update_reconciles_levels_witness :
  let ob := mkOrderBook "EURUSD" [(1.10, 5)] [(1.11, 4)] None in
  let prices := [1.10; nan; 0; 0; 0] in
  let quantities := [0; 3; 7; 0; 0] in
  (forall k, od_find (bids (update_bids ob prices quantities)) k
             = spec_reconcile (od_find (bids ob)) (combine prices quantities) k)
  /\ (forall k, od_find (offers (update_offers ob prices quantities)) k
             = spec_reconcile (od_find (offers ob)) (combine prices quantities) k).
Proof.
  intros ob prices quantities.
  apply update_reconciles_levels; try solve_wf_side; reflexivity.
Defined.

(** C2: after any sequence of [update_bids] / [update_offers] calls on a fresh
    book, the bid prices are strictly descending and the offer prices strictly
    ascending (so each price occurs once per side), and the best bid (resp.
    offer) returned is the highest bid (resp. lowest offer) price. *)
Theorem ordering_invariant (sec : string) (ops : list book_op) :
  let ob := run_ops sec ops in
  StronglySorted (fun a b => (b <? a) = true) (map fst (bids ob))
  /\ StronglySorted (fun a b => (a <? b) = true) (map fst (offers ob))
  /\ NoDup (map fst (bids ob)) /\ NoDup (map fst (offers ob))
  /\ (forall p q, get_best_bid ob = Some (p, q) ->
        forall k, In k (map fst (bids ob)) -> k = p \/ (k <? p) = true)
  /\ (forall p q, get_best_offer ob = Some (p, q) ->
        forall k, In k (map fst (offers ob)) -> k = p \/ (p <? k) = true).
Proof.
  intros ob. destruct (inv_run_ops sec ops) as ([Hbf Hbn] & Hbs & [Hof Hon] & Hos).
  fold ob in Hbf, Hbn, Hbs, Hof, Hon, Hos.
  split; [now apply keys_sorted_desc|]. split; [now apply keys_sorted_asc|].
  split; [exact Hbn|]. split; [exact Hon|]. split.
  - unfold get_best_bid. destruct (bids ob) as [|[b qb] t]; [discriminate|].
    intros p q E k Hk. inversion E; subst. destruct Hk as [Hk|Hk]; [now left|right].
    inversion Hbs as [|? ? _ Hall]; subst. rewrite Forall_forall in Hall.
    apply in_map_iff in Hk as [[k' v'] [<- Hin]]. exact (Hall _ Hin).
  - unfold get_best_offer. destruct (offers ob) as [|[o qo] t]; [discriminate|].
    intros p q E k Hk. inversion E; subst. destruct Hk as [Hk|Hk]; [now left|right].
    inversion Hos as [|? ? _ Hall]; subst. rewrite Forall_forall in Hall.
    apply in_map_iff in Hk as [[k' v'] [<- Hin]]. exact (Hall _ Hin).
Qed.

(** C3: with prices [0, 0, 0, 0, 0] (any quantities) [update_bids] and
    [update_offers] return the book unchanged. *)
Theorem all_zero_prices_noop (ob : OrderBook) (quantities : list float) :
  update_bids ob [0; 0; 0; 0; 0] quantities = ob
  /\ update_offers ob [0; 0; 0; 0; 0] quantities = ob.
Proof. split; reflexivity. Qed.

(** C7: [update_bids] changes only the bid side and [update_offers] only the
    offer side; neither touches the security or [last_update_time]. *)
Theorem update_sides_frame (ob : OrderBook) (prices quantities : list float) :
  offers (update_bids ob prices quantities) = offers ob
  /\ security (update_bids ob prices quantities) = security ob
  /\ last_update_time (update_bids ob prices quantities) = last_update_time ob
  /\ bids (update_offers ob prices quantities) = bids ob
  /\ security (update_offers ob prices quantities) = security ob
  /\ last_update_time (update_offers ob prices quantities) = last_update_time ob.
Proof.
  unfold update_bids, update_offers. destruct (all_zero prices); repeat split.
Qed.

(** C5: [get_spread] is best offer price minus best bid price when both sides
    hold a level, and [None] as soon as one side is empty. *)
Theorem get_spread_cases (ob : OrderBook) :
  (bids ob <> [] -> offers ob <> [] ->
     exists b qb o qo, get_best_bid ob = Some (b, qb) /\ get_best_offer ob = Some (o, qo)
                       /\ get_spread ob = Some (o - b))
  /\ (bids ob = [] \/ offers ob = [] -> get_spread ob = None).
Proof.
  unfold get_spread, get_best_bid, get_best_offer. split.
  - destruct (bids ob) as [|[b qb] bt]; [congruence|].
    destruct (offers ob) as [|[o qo] ot]; [congruence|].
    intros _ _. exists b, qb, o, qo. auto.
  - intros [E|E]; rewrite E; [reflexivity|]. now destruct (bids ob) as [|[]].
Qed.

(** C8 (as stated): the spread of the book with best bid (1.2000, 10) and best
    offer (1.2005, 8) is not 0.0005: in binary64 arithmetic the difference is
    0.0004999999999999449. *)
Lemma spread_example_not_exact :
  get_spread (mkOrderBook "EURUSD" [(1.2000, 10)] [(1.2005, 8)] None) <> Some 0.0005.
Proof.
  intros H. apply (f_equal (fun o => match o with Some x => x =? 0.0005 | None => false end)) in H.
  vm_compute in H. discriminate H.
Qed.

(** C8 (amended): whatever the other levels, best bid 1.2000 and best offer
    1.2005 give the binary64 difference 1.2005 - 1.2 = 0.0004999999999999449;
    a book with no bid levels has no spread. *)
Theorem spread_example (sec : string) (bt ot ot' : odict) (t t' : option pyvalue) :
  get_spread (mkOrderBook sec ((1.2000, 10) :: bt) ((1.2005, 8) :: ot) t)
    = Some 0.0004999999999999449
  /\ get_spread (mkOrderBook sec [] ot' t') = None.
Proof. split; reflexivity. Qed.

(** C9: on a well-formed side, applying the same (P, Q) with P > 0 and Q > 0
    a second time gives the same book as applying it once, and the side then
    holds exactly one level at P, with quantity Q. *)
Theorem upsert_idempotent (ob : OrderBook) (P Q : float)
  (Hb : wf_side (bids ob)) (Ho : wf_side (offers ob))
  (HP : (0 <? P) = true) (HQ : (0 <? Q) = true) :
  let prices := [P; 0; 0; 0; 0] in
  let quantities := [Q; 0; 0; 0; 0] in
  let ob_b := update_bids ob prices quantities in
  let ob_o := update_offers ob prices quantities in
  update_bids ob_b prices quantities = ob_b
  /\ filter (fun kv => fst kv =? P) (bids ob_b) = [(P, Q)]
  /\ update_offers ob_o prices quantities = ob_o
  /\ filter (fun kv => fst kv =? P) (offers ob_o) = [(P, Q)].
Proof.
  intros prices quantities ob_b ob_o.
  assert (Hnz : all_zero prices = false).
  { subst prices. cbn [all_zero forallb]. now rewrite (fpos_not_zero P HP). }
  assert (Hfold : forall d, fold_left apply_level (combine prices quantities) d = od_setitem d P Q).
  { intros d. subst prices quantities. cbn [combine fold_left].
    now rewrite !apply_level_zero_price, apply_level_set. }
  assert (Hbids : bids ob_b = of_items (sort_desc (od_setitem (bids ob) P Q))).
  { subst ob_b. unfold update_bids. rewrite Hnz, Hfold. reflexivity. }
  assert (Hoffers : offers ob_o = of_items (sort_asc (od_setitem (offers ob) P Q))).
  { subst ob_o. unfold update_offers. rewrite Hnz, Hfold. reflexivity. }
  destruct (rebuild_bids _ (wf_setitem _ P Q Hb HP)) as (Hbw & Hbs & Hbf).
  destruct (rebuild_offers _ (wf_setitem _ P Q Ho HP)) as (How & Hos & Hof).
  assert (HfB : od_find (bids ob_b) P = Some Q).
  { rewrite Hbids, Hbf, find_setitem by auto. now rewrite feqb_refl. }
  assert (HfO : od_find (offers ob_o) P = Some Q).
  { rewrite Hoffers, Hof, find_setitem by auto. now rewrite feqb_refl. }
  rewrite <- Hbids in Hbw, Hbs. rewrite <- Hoffers in How, Hos.
  split; [now apply update_bids_present|]. split; [now apply filter_key_found|].
  split; [now apply update_offers_present|]. now apply filter_key_found.
Qed.

Lemma upsert_idempotent_witness :
  let ob := mkOrderBook "EURUSD" [(1.09, 3)] [(1.12, 6)] None in
  let prices := [1.10; 0; 0; 0; 0] in
  let quantities := [5; 0; 0; 0; 0] in
  let ob_b := update_bids ob prices quantities in
  let ob_o := update_offers ob prices quantities in
  update_bids ob_b prices quantities = ob_b
  /\ filter (fun kv => fst kv =? 1.10) (bids ob_b) = [(1.10, 5)]
  /\ update_offers ob_o prices quantities = ob_o
  /\ filter (fun kv => fst kv =? 1.10) (offers ob_o) = [(1.10, 5)].
Proof.
  exact (upsert_idempotent (mkOrderBook "EURUSD" [(1.09, 3)] [(1.12, 6)] None) 1.10 5
           ltac:(solve_wf_side) ltac:(solve_wf_side) eq_refl eq_refl).
Defined.

(** C10: the updates are total functions of their inputs; an index with a
    negative price, or with a positive price and a negative quantity, leaves
    the side as it is; prices containing a negative value do not trigger the
    all-zero guard. *)
Theorem negative_inputs_skipped (d : odict) (p q : float) (prices : list float) :
  ((p <? 0) = true -> apply_level d (p, q) = d)
  /\ ((0 <? p) = true -> (q <? 0) = true -> apply_level d (p, q) = d)
  /\ (In p prices -> (p <? 0) = true -> all_zero prices = false).
Proof.
  unfold apply_level. split; [|split].
  - intros Hn. now rewrite (flt_neg_not_pos p Hn).
  - intros Hp Hq. rewrite Hp, (flt_neg_not_pos q Hq), (flt_neg_not_zero q Hq). reflexivity.
  - intros Hin Hn. unfold all_zero. apply not_true_is_false. intros Hall.
    rewrite forallb_forall in Hall. specialize (Hall p Hin).
    now rewrite (flt_neg_not_zero p Hn) in Hall.
Qed.

(** C4 (as stated): a row whose twenty level fields are numbers but which has
    no [time] field makes [update_order_book] raise, after both sides of the
    book have been updated. *)
Lemma missing_time_partial_update :
  let r := levels_row [1.10; 0; 0; 0; 0] [5; 0; 0; 0; 0] [1.11; 0; 0; 0; 0] [4; 0; 0; 0; 0] None in
  let res := update_order_book (fun _ => None) (new_order_book "EURUSD") r in
  snd res = Some (KeyError "time")
  /\ bids (fst res) <> bids (new_order_book "EURUSD")
  /\ offers (fst res) <> offers (new_order_book "EURUSD").
Proof. vm_compute. split; [reflexivity | split; discriminate]. Qed.

(** C4 (amended): when one of the twenty price/quantity fields is missing or
    does not convert to float, [update_order_book] raises before touching the
    book; when they all convert but the [time] field is missing, it raises
    [KeyError] with both sides already updated and [last_update_time] as it
    was. *)
Theorem update_order_book_errors (parse_float : string -> option float)
  (ob : OrderBook) (r : row) :
  (forall e, extract_levels parse_float r = inl e ->
     update_order_book parse_float ob r = (ob, Some e))
  /\ (forall bp bq op oq, extract_levels parse_float r = inr (bp, bq, op, oq) ->
        row_get r "time" = None ->
        update_order_book parse_float ob r
        = (update_offers (update_bids ob bp bq) op oq, Some (KeyError "time"))).
Proof.
  unfold update_order_book. split.
  - intros e E. now rewrite E.
  - intros bp bq op oq E T. now rewrite E, T.
Qed.

(** C6: once the twenty fields are extracted and the row has a [time] value,
    [update_order_book] returns normally and sets [last_update_time] from it,
    also when both sides were left unchanged by the all-zero guard. *)
Theorem update_sets_time (parse_float : string -> option float) (ob : OrderBook) (r : row)
  (bp bq op oq : list float) (tv : pyvalue)
  (Hx : extract_levels parse_float r = inr (bp, bq, op, oq))
  (Ht : row_get r "time" = Some tv) :
  snd (update_order_book parse_float ob r) = None
  /\ last_update_time (fst (update_order_book parse_float ob r)) = Some (stored_time tv)
  /\ (all_zero bp = true -> all_zero op = true ->
      fst (update_order_book parse_float ob r)
      = mkOrderBook (security ob) (bids ob) (offers ob) (Some (stored_time tv))).
Proof.
  unfold update_order_book. rewrite Hx, Ht. cbn. split; [reflexivity|]. split; [reflexivity|].
  intros Hb Ho. unfold update_bids, update_offers. rewrite Hb, Ho. reflexivity.
Qed.

Lemma update_sets_time_witness :
  let r := levels_row [0; 0; 0; 0; 0] [0; 0; 0; 0; 0] [0; 0; 0; 0; 0] [0; 0; 0; 0; 0]
             (Some (VTimestamp 1700000000123456789%Z)) in
  let ob := mkOrderBook "EURUSD" [(1.09, 3)] [(1.12, 6)] None in
  snd (update_order_book (fun _ => None) ob r) = None
  /\ last_update_time (fst (update_order_book (fun _ => None) ob r))
     = Some (stored_time (VTimestamp 1700000000123456789%Z))
  /\ (all_zero [0; 0; 0; 0; 0] = true -> all_zero [0; 0; 0; 0; 0] = true ->
      fst (update_order_book (fun _ => None) ob r)
      = mkOrderBook (security ob) (bids ob) (offers ob)
          (Some (stored_time (VTimestamp 1700000000123456789%Z)))).
Proof.
  intros r ob.
  apply (update_sets_time (fun _ => None) ob r [0; 0; 0; 0; 0] [0; 0; 0; 0; 0]
           [0; 0; 0; 0; 0] [0; 0; 0; 0; 0]); reflexivity.
Defined.

(** * Further properties of the code *)

(** Whatever the files contain, the registry [run] returns holds each
    security once, under the key of its own [security], and every book in it
    has strictly sorted sides with positive, distinct prices, also when a file
    stopped half-way on an exception. *)
Theorem run_registry_consistent (parse_float : string -> option float)
  (py_str_other : pyvalue -> string) (files : list read_result) :
  exists reg, run parse_float py_str_other true files = Some reg
  /\ NoDup (map fst reg)
  /\ (forall k ob, reg_get reg k = Some ob -> security ob = k /\ book_inv ob).
Proof.
  unfold run. eexists; split; [reflexivity|].
  assert (Hok : reg_ok (fold_left (fun reg file => fst (process_file parse_float py_str_other reg file))
                          files [])).
  { assert (H0 : reg_ok []) by (split; constructor).
    revert H0. generalize (@nil (string * OrderBook)).
    induction files as [|f fs IH]; cbn; intros reg Hok; auto.
    apply IH. destruct f as [e|rows]; cbn; auto. now apply process_rows_ok. }
  destruct Hok as [Hn Hf]. split; auto. intros k ob Hg.
  apply reg_get_in in Hg. rewrite Forall_forall in Hf. exact (Hf _ Hg).
Qed.

Lemma process_row_other (parse_float : string -> option float)
  (py_str_other : pyvalue -> string) reg r s :
  (forall v, row_get r "security"%string = Some v -> py_str py_str_other v <> s) ->
  reg_get (fst (process_row parse_float py_str_other reg r)) s = reg_get reg s.
Proof.
  intros H. unfold process_row.
  destruct (row_get r "security"%string) as [v|]; cbn; auto.
  specialize (H v eq_refl).
  destruct (update_order_book parse_float _ r) as [ob' err]. cbn.
  rewrite reg_get_set_other by auto.
  destruct (reg_get reg (py_str py_str_other v)); auto.
  now rewrite reg_get_set_other.
Qed.

(** Rows of other securities never touch a security's book: if no row
    processed names security [s], the registry entry for [s] is unchanged. *)
Theorem process_rows_other_security (parse_float : string -> option float)
  (py_str_other : pyvalue -> string) (reg : registry) (rows : list row) (s : string)
  (Hrows : forall r v, In r rows -> row_get r "security"%string = Some v ->
                       py_str py_str_other v <> s) :
  reg_get (fst (process_rows parse_float py_str_other reg rows)) s = reg_get reg s.
Proof.
  revert reg. induction rows as [|r rs IH]; cbn; intros reg; auto.
  pose proof (process_row_other parse_float py_str_other reg r s
                (fun v => Hrows r v (or_introl eq_refl))) as H.
  destruct (process_row parse_float py_str_other reg r) as [reg' [e|]]; cbn in *; auto.
  rewrite IH; auto. intros r' v Hin. apply Hrows. now right.
Qed.

Lemma process_rows_other_security_witness :
  let r := ("security"%string, VStr "GBPUSD") ::
           levels_row [1.25; 0; 0; 0; 0] [2; 0; 0; 0; 0] [1.26; 0; 0; 0; 0] [3; 0; 0; 0; 0]
             (Some (VTimestamp 0)) in
  let reg := [("EURUSD"%string, new_order_book "EURUSD")] in
  reg_get (fst (process_rows (fun _ => None) (fun _ => ""%string) reg [r])) "EURUSD"
  = reg_get reg "EURUSD".
Proof.
  intros r reg. apply process_rows_other_security.
  intros r' v [<-|[]] E. cbn in E. inversion E; subst. cbn. discriminate.
Defined.

(** Whatever the row, [update_order_book] keeps a book's sides strictly
    sorted with positive, distinct prices, and keeps its security, also when
    it raises. *)
Theorem update_order_book_preserves_book (parse_float : string -> option float)
  (ob : OrderBook) (r : row) (Hinv : book_inv ob) :
  book_inv (fst (update_order_book parse_float ob r))
  /\ security (fst (update_order_book parse_float ob r)) = security ob.
Proof. now apply update_order_book_keeps. Qed.

Lemma update_order_book_preserves_book_witness :
  book_inv (fst (update_order_book (fun _ => None) (new_order_book "EURUSD")
                  (levels_row [1.10; 0; 0; 0; 0] [5; 0; 0; 0; 0] [1.11; 0; 0; 0; 0] [4; 0; 0; 0; 0] None)))
  /\ security (fst (update_order_book (fun _ => None) (new_order_book "EURUSD")
                  (levels_row [1.10; 0; 0; 0; 0] [5; 0; 0; 0; 0] [1.11; 0; 0; 0; 0] [4; 0; 0; 0; 0] None)))
     = security (new_order_book "EURUSD").
Proof.
  apply update_order_book_preserves_book. repeat split; constructor.
Defined.

(** Adding a level at a price P not yet on a side and then deleting it
    (quantity 0 at P) gives back exactly the book one started from; for each
    side only its own levels matter. *)
Theorem insert_then_delete_roundtrip (ob : OrderBook) (P Q : float)
  (Hinv : book_inv ob) (HP : (0 <? P) = true) (HQ : (0 <? Q) = true) :
  (od_find (bids ob) P = None ->
   update_bids (update_bids ob [P; 0; 0; 0; 0] [Q; 0; 0; 0; 0]) [P; 0; 0; 0; 0] [0; 0; 0; 0; 0] = ob)
  /\ (od_find (offers ob) P = None ->
   update_offers (update_offers ob [P; 0; 0; 0; 0] [Q; 0; 0; 0; 0]) [P; 0; 0; 0; 0] [0; 0; 0; 0; 0] = ob).
Proof.
  destruct Hinv as (Hbw & Hbs & How & Hos).
  assert (Hnz : all_zero [P; 0; 0; 0; 0] = false).
  { cbn [all_zero forallb]. now rewrite (fpos_not_zero P HP). }
  assert (Hset : forall d, fold_left apply_level (combine [P; 0; 0; 0; 0] [Q; 0; 0; 0; 0]) d
                           = od_setitem d P Q).
  { intros d. cbn [combine fold_left]. now rewrite !apply_level_zero_price, apply_level_set. }
  assert (Hdel : forall d v, od_find d P = Some v ->
                 fold_left apply_level (combine [P; 0; 0; 0; 0] [0; 0; 0; 0; 0]) d = od_delitem d P).
  { intros d v Hf. cbn [combine fold_left].
    now rewrite !apply_level_zero_price, (apply_level_del d P v HP Hf). }
  split; [intros Hb | intros Ho].
  - unfold update_bids at 2. rewrite Hnz, Hset.
    set (d1 := of_items (sort_desc (od_setitem (bids ob) P Q))).
    destruct (rebuild_bids _ (wf_setitem _ P Q Hbw HP)) as (Hw1 & Hs1 & _). fold d1 in Hw1, Hs1.
    assert (HP1 : Permutation d1 (od_setitem (bids ob) P Q)).
    { subst d1. rewrite of_items_id.
      - apply perm_sort_desc.
      - apply (wf_perm (od_setitem (bids ob) P Q)); [apply Permutation_sym, perm_sort_desc|].
        now apply wf_setitem. }
    destruct (set_then_delete_perm (bids ob) d1 P Q Hbw HP Hb HP1 Hw1) as [HPd HF1].
    unfold update_bids. rewrite Hnz. cbn [bids offers security last_update_time].
    rewrite (Hdel d1 Q HF1).
    assert (Hw2 : wf_side (od_delitem d1 P)) by now apply wf_delitem.
    assert (Hs2 : StronglySorted desc_rel (od_delitem d1 P)) by now apply sorted_delitem.
    rewrite sort_desc_sorted, of_items_id by auto.
    rewrite (sorted_perm_unique desc_rel desc_asym (od_delitem d1 P) (bids ob) Hw2 Hs2 Hbs HPd).
    now destruct ob.
  - unfold update_offers at 2. rewrite Hnz, Hset.
    set (d1 := of_items (sort_asc (od_setitem (offers ob) P Q))).
    destruct (rebuild_offers _ (wf_setitem _ P Q How HP)) as (Hw1 & Hs1 & _). fold d1 in Hw1, Hs1.
    assert (HP1 : Permutation d1 (od_setitem (offers ob) P Q)).
    { subst d1. rewrite of_items_id.
      - apply perm_sort_asc.
      - apply (wf_perm (od_setitem (offers ob) P Q)); [apply Permutation_sym, perm_sort_asc|].
        now apply wf_setitem. }
    destruct (set_then_delete_perm (offers ob) d1 P Q How HP Ho HP1 Hw1) as [HPd HF1].
    unfold update_offers. rewrite Hnz. cbn [bids offers security last_update_time].
    rewrite (Hdel d1 Q HF1).
    assert (Hw2 : wf_side (od_delitem d1 P)) by now apply wf_delitem.
    assert (Hs2 : StronglySorted asc_rel (od_delitem d1 P)) by now apply sorted_delitem.
    rewrite sort_asc_sorted, of_items_id by auto.
    rewrite (sorted_perm_unique asc_rel asc_asym (od_delitem d1 P) (offers ob) Hw2 Hs2 Hos HPd).
    now destruct ob.
Qed.

Lemma insert_then_delete_roundtrip_witness :
  let ob := mkOrderBook "EURUSD" [(1.09, 3)] [(1.10, 6)] None in
  update_bids (update_bids ob [1.10; 0; 0; 0; 0] [5; 0; 0; 0; 0]) [1.10; 0; 0; 0; 0] [0; 0; 0; 0; 0] = ob
  /\ update_offers (update_offers ob [1.09; 0; 0; 0; 0] [5; 0; 0; 0; 0]) [1.09; 0; 0; 0; 0] [0; 0; 0; 0; 0] = ob.
Proof.
  intros ob. split.
  - exact (proj1 (insert_then_delete_roundtrip ob 1.10 5
                    ltac:(repeat split; repeat constructor; intros []) eq_refl eq_refl) eq_refl).
  - exact (proj2 (insert_then_delete_roundtrip ob 1.09 5
                    ltac:(repeat split; repeat constructor; intros []) eq_refl eq_refl) eq_refl).
Defined.